(** * Conway's Game of Life on a torus: a verified model of [life.py]

    The functions of [life.py] ([life_crear], [life_mostrar],
    [cant_adyacentes], [celda_siguiente], [life_siguiente] and the
    driver [main]) are embedded as Rocq functions over the fragment of
    the Python runtime they use:
    lists indexed by integers (with negative indices), the floor modulo
    with its [ZeroDivisionError], [range], and [for] loops that build
    their result by appending.  Exceptions are explicit: every function
    returns a [result]. *)

From Stdlib Require Import List ZArith Lia Bool String Ascii.
Import ListNotations.
Local Open Scope Z_scope.

(** ** The fragment of Python used by the program *)

Module Py.

(** The two exceptions the operations of [life.py] can raise. *)
Inductive exn : Type :=
| IndexError
| ZeroDivisionError.

Inductive result (A : Type) : Type :=
| OK (a : A)
| Raise (e : exn).

Arguments OK {A} a.
Arguments Raise {A} e.

Definition bind {A B : Type} (r : result A) (k : A -> result B) : result B :=
  match r with
  | OK a => k a
  | Raise e => Raise e
  end.

(** [for x in xs: body], threading the variables the body assigns. *)
Fixpoint for_each {A S : Type} (xs : list A) (s : S)
    (body : S -> A -> result S) : result S :=
  match xs with
  | [] => OK s
  | x :: xs' => bind (body s x) (fun s' => for_each xs' s' body)
  end.

(** [len(l)] *)
Definition len {A : Type} (l : list A) : Z := Z.of_nat (List.length l).

(** [l[k]]: an index in [-len(l), len(l)) is accepted, a negative one
    counting from the end; any other raises [IndexError]. *)
Definition getitem {A : Type} (l : list A) (k : Z) : result A :=
  let k' := if k <? 0 then k + len l else k in
  if (k' <? 0) || (len l <=? k') then Raise IndexError
  else match nth_error l (Z.to_nat k') with
       | Some a => OK a
       | None => Raise IndexError
       end.

(** [a % b] on integers: the floor modulo, which takes the sign of
    the divisor, as [Z.modulo] does. *)
Definition mod_ (a b : Z) : result Z :=
  if b =? 0 then Raise ZeroDivisionError else OK (a mod b).

(** [range(a, b)] *)
Definition range (a b : Z) : list Z :=
  map (fun k => a + Z.of_nat k) (seq 0 (Z.to_nat (b - a))).

(** Iterating over a [str] yields its characters in order.  Characters
    are the 8-bit [ascii] of the standard library: the program only
    compares them with ['#']. *)
Definition chars (s : string) : list ascii := list_ascii_of_string s.

End Py.

Import Py.

Notation "x <- c ;; k" := (bind c (fun x => k))
  (at level 61, c at next level, right associativity).

(** ** The program *)

(** The state of the game: a list of rows, each a list of cells,
    [True] for a living cell. *)
Definition grid : Type := list (list bool).

(** [life_crear(mapa)]: one row of booleans per string, a cell being
    [True] exactly where the character is ['#']. *)
Definition life_crear (mapa : list string) : result grid :=
  let estado_inicial_del_juego := [] in
  for_each mapa estado_inicial_del_juego (fun estado lista =>
    let lista_booleanos := [] in
    lista_booleanos <- for_each (chars lista) lista_booleanos
      (fun lista_booleanos caracter =>
         if Ascii.eqb caracter "#"%char
         then OK (lista_booleanos ++ [true])
         else OK (lista_booleanos ++ [false])) ;;
    OK (estado ++ [lista_booleanos])).

(** [life_mostrar(life)]: one string per row, ['#'] for [True] and
    ['.'] for [False]. *)
Definition life_mostrar (life : grid) : result (list string) :=
  let representacion_del_juego := [] in
  for_each life representacion_del_juego (fun representacion lista =>
    let cadenas := EmptyString in
    cadenas <- for_each lista cadenas
      (fun cadenas caracter =>
         if Bool.eqb caracter true
         then OK (cadenas ++ "#")%string
         else OK (cadenas ++ ".")%string) ;;
    OK (representacion ++ [cadenas])).

(** [cant_adyacentes(life, f, c)]: the living cells among the eight
    offsets around [(f, c)], each coordinate taken modulo the number
    of rows and the length of the first row. *)
Definition cant_adyacentes (life : grid) (f c : Z) : result Z :=
  let contador := 0 in
  let filas := len life in
  fila_0 <- getitem life 0 ;;
  let columnas := len fila_0 in
  for_each (range (-1) 2) contador (fun contador i =>
    for_each (range (-1) 2) contador (fun contador j =>
      if (i =? 0) && (j =? 0) then OK contador
      else
        fila_adyacente <- mod_ (f + i) filas ;;
        columna_adyacente <- mod_ (c + j) columnas ;;
        fila <- getitem life fila_adyacente ;;
        celda <- getitem fila columna_adyacente ;;
        OK (contador + Z.b2z celda))).

(** [celda_siguiente(life, f, c)]: the state of cell [(f, c)] in the
    next generation. *)
Definition celda_siguiente (life : grid) (f c : Z) : result bool :=
  fila <- getitem life f ;;
  celda <- getitem fila c ;;
  n <- cant_adyacentes life f c ;;
  if Bool.eqb celda true then
    if (n =? 2) || (n =? 3) then OK true else OK false
  else
    if n =? 3 then OK true else OK celda.

(** [life_siguiente(life)]: a new grid, the next generation. *)
Definition life_siguiente (life : grid) : result grid :=
  let siguiente := [] in
  for_each (range 0 (len life)) siguiente (fun siguiente f =>
    let fila := [] in
    fila_0 <- getitem life 0 ;;
    fila <- for_each (range 0 (len fila_0)) fila (fun fila c =>
      celda <- celda_siguiente life f c ;;
      OK (fila ++ [celda])) ;;
    OK (siguiente ++ [fila])).

(** *** The driver

    [main] prints the grid, waits for Enter and steps, for ever.  What
    it does to the terminal is recorded as a list of events; the
    [while True] loop is run for a given number of turns, each
    [input] being answered with Enter. *)

Inductive evento : Type :=
| Print (linea : string)
| Input (mensaje : string).

Definition mapa_inicial : list string :=
  [ ".........."; "..........";
    ".........."; ".....#....";
    "......#..."; "....###...";
    ".........."; ".........." ]%string.

Definition mensaje_enter : string :=
  "Presione Enter para continuar, CTRL+C para terminar"%string.

(** One turn of the loop of [main]. *)
Definition main_vuelta (estado : list evento * grid)
  : result (list evento * grid) :=
  let (salida, life) := estado in
  lineas <- life_mostrar life ;;
  salida <- for_each lineas salida
    (fun salida linea => OK (salida ++ [Print linea])) ;;
  let salida := salida ++ [Print EmptyString] in
  let salida := salida ++ [Input mensaje_enter] in
  let salida := salida ++ [Print EmptyString] in
  life <- life_siguiente life ;;
  OK (salida, life).

(** [main()], interrupted after [vueltas] turns of its loop. *)
Definition main (vueltas : nat) : result (list evento * grid) :=
  life <- life_crear mapa_inicial ;;
  for_each (seq 0 vueltas) ([], life) (fun estado _ => main_vuelta estado).

(** ** Vocabulary of the specification *)

(** Number of rows, and number of columns as the program reads it:
    the length of the first row. *)
Definition filas (life : grid) : Z := len life.
Definition columnas (life : grid) : Z := len (hd [] life).

(** All rows have the length of the first one. *)
Definition rectangular (life : grid) : Prop :=
  Forall (fun fila => len fila = columnas life) life.

(** A grid of the data model: rectangular, with at least one row and
    one column. *)
Definition valido (life : grid) : Prop :=
  rectangular life /\ 0 < filas life /\ 0 < columnas life.

Definition en_rango (life : grid) (f c : Z) : Prop :=
  0 <= f < filas life /\ 0 <= c < columnas life.

(** The cell at an in-bounds position (dead outside the grid). *)
Definition celda_en (life : grid) (f c : Z) : bool :=
  nth (Z.to_nat c) (nth (Z.to_nat f) life []) false.

(** The eight offsets, in the order the two loops visit them. *)
Definition desplazamientos : list (Z * Z) :=
  [ (-1, -1); (-1, 0); (-1, 1);
    ( 0, -1);          ( 0, 1);
    ( 1, -1); ( 1, 0); ( 1, 1) ].

(** The living cells among the eight offsets around [(f, c)] on the
    torus. *)
Definition vivos_alrededor (life : grid) (f c : Z) : Z :=
  fold_left
    (fun total d =>
       total + Z.b2z (celda_en life ((f + fst d) mod filas life)
                                    ((c + snd d) mod columnas life)))
    desplazamientos 0.

(** The rule of the game: survival on 2 or 3 neighbours, birth on 3. *)
Definition regla (viva : bool) (n : Z) : bool :=
  if viva then (n =? 2) || (n =? 3) else (n =? 3).

(** The cell the rule gives to position [(f, c)] of the next
    generation. *)
Definition celda_nueva (life : grid) (f c : Z) : bool :=
  regla (celda_en life f c) (vivos_alrededor life f c).

(** The Python expression [life[f][c]]. *)
Definition leer (life : grid) (f c : Z) : result bool :=
  fila <- getitem life f ;; getitem fila c.

(** The grid of [R] rows and [C] columns whose cell [(f, c)] is
    [p f c]. *)
Definition tabla (R C : Z) (p : Z -> Z -> bool) : grid :=
  map (fun f => map (fun c => p f c) (range 0 C)) (range 0 R).

(** One generation, on the function that gives the cells of an
    [R] x [C] grid. *)
Definition paso (R C : Z) (p : Z -> Z -> bool) (f c : Z) : bool :=
  regla (p f c)
        (fold_left
           (fun total d =>
              total + Z.b2z (p ((f + fst d) mod R) ((c + snd d) mod C)))
           desplazamientos 0).

(** The blinker: on a dead [R] x [C] grid, three living cells side by
    side in row [r], centred on column [c]; and its other phase, three
    living cells in column [c], centred on row [r]. *)
Definition horizontal (r c : Z) (f k : Z) : bool :=
  (f =? r) && (c - 1 <=? k) && (k <=? c + 1).

Definition vertical (r c : Z) (f k : Z) : bool :=
  (k =? c) && (r - 1 <=? f) && (f <=? r + 1).

Definition blinker (R C r c : Z) : grid := tabla R C (horizontal r c).

Definition blinker_5x5 : grid :=
  [ [false; false; false; false; false];
    [false; false; false; false; false];
    [false; true;  true;  true;  false];
    [false; false; false; false; false];
    [false; false; false; false; false] ].

(** Text over the two recognised symbols. *)
Definition simbolo (a : ascii) : Prop := a = "."%char \/ a = "#"%char.
Definition bien_formada (linea : string) : Prop := Forall simbolo (chars linea).

Definition misma_longitud (lineas : list string) : Prop :=
  forall s t, In s lineas -> In t lineas -> String.length s = String.length t.

Definition filas_desiguales (lineas : list string) : Prop :=
  exists s t, In s lineas /\ In t lineas /\ String.length s <> String.length t.

(** What the two directions of the codec do to one symbol. *)
Definition es_celula (caracter : ascii) : bool := Ascii.eqb caracter "#"%char.
Definition simbolo_de (viva : bool) : ascii := if viva then "#"%char else "."%char.

Definition solo_esquina : grid :=
  [ [true;  false; false];
    [false; false; false];
    [false; false; false] ].

(** Every row is at least as long as the first one. *)
Definition holgado (life : grid) : Prop :=
  Forall (fun fila => columnas life <= len fila) life.

(** What the codec turns a character into, there and back. *)
Definition normalizar (caracter : ascii) : ascii :=
  if Ascii.eqb caracter "#"%char then "#"%char else "."%char.

(** [n] generation steps in a row. *)
Definition generaciones (n : nat) (life : grid) : result grid :=
  for_each (seq 0 n) life (fun life _ => life_siguiente life).

(** The grid seen from [a] rows below and [b] columns to the right on
    the torus: cell [(f, c)] of the result is cell [(f + a, c + b)]. *)
Definition desplazar (a b : Z) (life : grid) : grid :=
  tabla (filas life) (columnas life)
        (fun f c => celda_en life ((f + a) mod filas life)
                                  ((c + b) mod columnas life)).

(** The grid whose cells all have the same state. *)
Definition uniforme (R C : Z) (viva : bool) : grid :=
  tabla R C (fun _ _ => viva).

(** One living cell at [(r, c)], and the 2 x 2 block whose top-left
    cell is [(r, c)]. *)
Definition sola (r c : Z) (f k : Z) : bool := (f =? r) && (k =? c).

Definition bloque (r c : Z) (f k : Z) : bool :=
  (r <=? f) && (f <=? r + 1) && (c <=? k) && (k <=? c + 1).

(** The grid [main] starts from: a glider on 8 rows and 10 columns. *)
Definition tablero_inicial : grid :=
  [ [false; false; false; false; false; false; false; false; false; false];
    [false; false; false; false; false; false; false; false; false; false];
    [false; false; false; false; false; false; false; false; false; false];
    [false; false; false; false; false; true;  false; false; false; false];
    [false; false; false; false; false; false; true;  false; false; false];
    [false; false; false; false; true;  true;  true;  false; false; false];
    [false; false; false; false; false; false; false; false; false; false];
    [false; false; false; false; false; false; false; false; false; false] ].

(** What [main] may write: the empty line, a line of ten symbols, or
    its one prompt. *)
Definition evento_de_main (e : evento) : Prop :=
  match e with
  | Print linea =>
      linea = EmptyString \/ (String.length linea = 10%nat /\ bien_formada linea)
  | Input mensaje => mensaje = mensaje_enter
  end.

(** ** Concrete runs *)

Example crear_ejemplo :
  life_crear [".#"; "#."]%string = OK [[false; true]; [true; false]].
Proof. reflexivity. Qed.

Example mostrar_ejemplo :
  life_mostrar [[false; true]; [true; false]] = OK [".#"; "#."]%string.
Proof. reflexivity. Qed.

Example adyacentes_ejemplo : cant_adyacentes solo_esquina 1 1 = OK 1.
Proof. reflexivity. Qed.

(** Outside the data model the reads can fail: no row, no column, or
    a row shorter than the first. *)
Example adyacentes_sin_filas : cant_adyacentes [] 0 0 = Raise IndexError.
Proof. reflexivity. Qed.

Example adyacentes_sin_columnas :
  cant_adyacentes [[]] 0 0 = Raise ZeroDivisionError.
Proof. reflexivity. Qed.

Example siguiente_fila_corta :
  life_siguiente [[true; false]; [true]] = Raise IndexError.
Proof. reflexivity. Qed.

Example siguiente_sin_filas : life_siguiente [] = OK [].
Proof. reflexivity. Qed.

(** ** The runtime fragment *)

Section Runtime.

Context {A : Type}.

Lemma bind_OK {B : Type} (a : A) (k : A -> result B) : bind (OK a) k = k a.
Proof. reflexivity. Qed.

Lemma len_nonneg (l : list A) : 0 <= len l.
Proof. unfold len. lia. Qed.

(** An index in [0, len) reads the element at that place. *)
Lemma getitem_en_rango (l : list A) (k : Z) (d : A) :
  0 <= k < len l -> getitem l k = OK (nth (Z.to_nat k) l d).
Proof.
  intros Hk. unfold getitem.
  destruct (Z.ltb_spec k 0) as [Hneg | _]; [lia |].
  destruct (Z.ltb_spec k 0) as [Hneg | _]; [lia |].
  destruct (Z.leb_spec (len l) k) as [Hbig | _]; [lia |].
  cbn [orb].
  assert (Hlt : (Z.to_nat k < List.length l)%nat) by (unfold len in Hk; lia).
  destruct (nth_error l (Z.to_nat k)) as [a |] eqn:E.
  - f_equal. symmetry. now apply nth_error_nth.
  - apply nth_error_None in E. lia.
Qed.

(** Outside [-len, len) the read raises. *)
Lemma getitem_fuera (l : list A) (k : Z) :
  k < - len l \/ len l <= k -> getitem l k = Raise IndexError.
Proof.
  intros Hk. unfold getitem. pose proof (len_nonneg l).
  destruct (Z.ltb_spec k 0).
  - destruct (Z.ltb_spec (k + len l) 0); [reflexivity | lia].
  - destruct (Z.ltb_spec k 0); [lia |].
    destruct (Z.leb_spec (len l) k); [reflexivity | lia].
Qed.

Lemma getitem_primera (a : A) (l : list A) : getitem (a :: l) 0 = OK a.
Proof.
  rewrite (getitem_en_rango _ _ a); [reflexivity |].
  unfold len. cbn [List.length]. lia.
Qed.

End Runtime.

Lemma mod_OK (a b : Z) : b <> 0 -> mod_ a b = OK (a mod b).
Proof.
  intros Hb. unfold mod_.
  destruct (Z.eqb_spec b 0); [contradiction | reflexivity].
Qed.

Lemma In_range (a b x : Z) : In x (range a b) <-> a <= x < b.
Proof.
  unfold range. rewrite in_map_iff. split.
  - intros (k & <- & Hk). apply in_seq in Hk. lia.
  - intros Hx. exists (Z.to_nat (x - a)). split; [lia |].
    apply in_seq. lia.
Qed.

Lemma length_range (a b : Z) : List.length (range a b) = Z.to_nat (b - a).
Proof. unfold range. now rewrite length_map, length_seq. Qed.

(** ** Loops *)

Section Loops.

Context {A S : Type}.

(** Only the iterations that are run matter. *)
Lemma for_each_ext (body body' : S -> A -> result S) (xs : list A) (s : S) :
  (forall s x, In x xs -> body s x = body' s x) ->
  for_each xs s body = for_each xs s body'.
Proof.
  revert s. induction xs as [| x xs IH]; intros s Hext; [reflexivity |].
  cbn [for_each]. rewrite (Hext s x (or_introl eq_refl)).
  destruct (body' s x) as [s' | e]; [| reflexivity].
  cbn [bind]. apply IH. intros s0 y Hy. apply Hext. now right.
Qed.

End Loops.

(** A loop that appends one computed element per iteration builds the
    image of the list it walks. *)
Lemma for_each_append {A B : Type} (g : A -> result B) (g' : A -> B)
    (xs : list A) (acc : list B) :
  (forall x, In x xs -> g x = OK (g' x)) ->
  for_each xs acc (fun acc x => v <- g x ;; OK (acc ++ [v]))
  = OK (acc ++ map g' xs).
Proof.
  revert acc. induction xs as [| x xs IH]; intros acc Hg.
  - cbn. now rewrite app_nil_r.
  - cbn [for_each map]. rewrite (Hg x (or_introl eq_refl)). cbn [bind].
    rewrite IH by (intros y Hy; apply Hg; now right).
    now rewrite <- app_assoc.
Qed.

(** ** The codec *)

Lemma length_chars (s : string) : List.length (chars s) = String.length s.
Proof.
  unfold chars. induction s as [| a s IH]; cbn; [reflexivity | now rewrite IH].
Qed.

Lemma append_simbolo (s : string) (a : ascii) (t : string) :
  ((s ++ String a EmptyString) ++ t)%string = (s ++ String a t)%string.
Proof.
  induction s as [| b s IH]; cbn; [reflexivity | now rewrite IH].
Qed.

Lemma append_vacia (s : string) : (s ++ EmptyString)%string = s.
Proof.
  induction s as [| b s IH]; cbn; [reflexivity | now rewrite IH].
Qed.

(** The inner loop of [life_crear] on one line. *)
Lemma crear_fila (caracteres : list ascii) (lista_booleanos : list bool) :
  for_each caracteres lista_booleanos
    (fun lista_booleanos caracter =>
       if Ascii.eqb caracter "#"%char
       then OK (lista_booleanos ++ [true])
       else OK (lista_booleanos ++ [false]))
  = OK (lista_booleanos ++ map es_celula caracteres).
Proof.
  rewrite <- (for_each_append (fun a => OK (es_celula a))) by reflexivity.
  apply for_each_ext. intros acc a _. unfold es_celula.
  now destruct (Ascii.eqb a "#"%char).
Qed.

(** [life_crear] never raises: it is the image of the text under
    [es_celula]. *)
Lemma life_crear_map (mapa : list string) :
  life_crear mapa = OK (map (fun lista => map es_celula (chars lista)) mapa).
Proof.
  unfold life_crear.
  rewrite <- (app_nil_l (map _ mapa)).
  rewrite <- (for_each_append
                (fun lista => OK (map es_celula (chars lista)))) by reflexivity.
  apply for_each_ext. intros estado lista _.
  now rewrite crear_fila.
Qed.

(** The inner loop of [life_mostrar] on one row. *)
Lemma mostrar_fila (lista : list bool) (cadenas : string) :
  for_each lista cadenas
    (fun cadenas caracter =>
       if Bool.eqb caracter true
       then OK (cadenas ++ "#")%string
       else OK (cadenas ++ ".")%string)
  = OK (cadenas ++ string_of_list_ascii (map simbolo_de lista))%string.
Proof.
  revert cadenas. induction lista as [| b lista IH]; intros cadenas.
  - cbn. now rewrite append_vacia.
  - cbn [for_each map string_of_list_ascii].
    destruct b; cbn [Bool.eqb bind simbolo_de]; rewrite IH;
      now rewrite append_simbolo.
Qed.

Lemma life_mostrar_map (life : grid) :
  life_mostrar life
  = OK (map (fun lista => string_of_list_ascii (map simbolo_de lista)) life).
Proof.
  unfold life_mostrar.
  rewrite <- (app_nil_l (map _ life)).
  rewrite <- (for_each_append
                (fun lista => OK (string_of_list_ascii (map simbolo_de lista))))
    by reflexivity.
  apply for_each_ext. intros representacion lista _.
  now rewrite mostrar_fila.
Qed.

Lemma simbolo_ida_y_vuelta (a : ascii) : simbolo a -> simbolo_de (es_celula a) = a.
Proof. intros [-> | ->]; reflexivity. Qed.

Lemma linea_ida_y_vuelta (linea : string) :
  bien_formada linea ->
  string_of_list_ascii (map simbolo_de (map es_celula (chars linea))) = linea.
Proof.
  unfold bien_formada, chars. intros Hbf.
  rewrite <- (string_of_list_ascii_of_string linea) at 2.
  f_equal. induction Hbf as [| a l Ha _ IH]; [reflexivity |].
  cbn [map]. now rewrite simbolo_ida_y_vuelta, IH.
Qed.

(** Round trip on any text over the two symbols, whatever its shape. *)
Lemma codec_ida_y_vuelta (lineas : list string) :
  Forall bien_formada lineas ->
  (life <- life_crear lineas ;; life_mostrar life) = OK lineas.
Proof.
  intros Hbf. rewrite life_crear_map, bind_OK, life_mostrar_map.
  f_equal. rewrite map_map.
  induction Hbf as [| linea l Hl _ IH]; [reflexivity |].
  cbn [map]. now rewrite linea_ida_y_vuelta, IH.
Qed.

(** Decides [bien_formada] on a literal line. *)
Ltac solve_bien_formada :=
  unfold bien_formada; cbn;
  repeat (apply Forall_cons;
          [first [left; reflexivity | right; reflexivity] |]);
  apply Forall_nil.

(** C3. Round trip: for every non-empty list of equal-length lines over
    the two symbols ['.'] and ['#'], decoding with [life_crear] and then
    encoding with [life_mostrar] returns the original list of lines. *)
Theorem C3_encode_decode_roundtrip (lineas : list string) :
  lineas <> [] ->
  misma_longitud lineas ->
  Forall bien_formada lineas ->
  (life <- life_crear lineas ;; life_mostrar life) = OK lineas.
Proof.
  intros _ _ Hbf. now apply codec_ida_y_vuelta.
Qed.

Lemma C3_encode_decode_roundtrip_witness :
  (life <- life_crear [".#."; "##."; "..#"]%string ;; life_mostrar life)
  = OK [".#."; "##."; "..#"]%string.
Proof.
  apply C3_encode_decode_roundtrip.
  - discriminate.
  - intros s t Hs Ht. cbn in Hs, Ht.
    destruct Hs as [<- | [<- | [<- | []]]];
      destruct Ht as [<- | [<- | [<- | []]]]; reflexivity.
  - repeat (apply Forall_cons; [solve_bien_formada |]). apply Forall_nil.
Defined.

Lemma es_celula_true (a : ascii) : es_celula a = true <-> a = "#"%char.
Proof. unfold es_celula. apply Ascii.eqb_eq. Qed.

Example crear_otros_caracteres :
  life_crear ["a#"; " X"]%string = OK [[false; true]; [false; false]].
Proof. reflexivity. Qed.

(** C9. [life_crear] accepts any text: for every list of strings, also
    with characters other than ['.'] and ['#'], it returns a grid
    without raising, with one row per string and one cell per
    character, a cell being alive exactly where the character is
    ['#']. *)
Theorem C9_decode_alive_iff_hash (mapa : list string) :
  exists life,
    life_crear mapa = OK life /\
    Forall2
      (fun lista fila =>
         Forall2 (fun caracter viva => viva = true <-> caracter = "#"%char)
                 (chars lista) fila)
      mapa life.
Proof.
  eexists. split; [apply life_crear_map |].
  induction mapa as [| lista mapa IH]; cbn [map]; constructor; [| exact IH].
  induction (chars lista) as [| a l IHl]; cbn [map]; constructor;
    [apply es_celula_true | exact IHl].
Qed.

(** Each row of the decoded grid is as long as its line. *)
Lemma life_crear_longitudes (mapa : list string) :
  exists life,
    life_crear mapa = OK life /\
    map len life = map (fun lista => Z.of_nat (String.length lista)) mapa.
Proof.
  eexists. split; [apply life_crear_map |].
  rewrite map_map. apply map_ext. intros lista.
  unfold len. now rewrite length_map, length_chars.
Qed.

Lemma rectangular_misma_len (life : grid) (fila fila' : list bool) :
  rectangular life -> In fila life -> In fila' life -> len fila = len fila'.
Proof.
  unfold rectangular. rewrite Forall_forall. intros Hrect Hf Hf'.
  now rewrite (Hrect _ Hf), (Hrect _ Hf').
Qed.

(** C7 (as amended). [life_crear] does not check the shape of its
    input: on every list of strings in which two rows have unequal
    lengths it returns, without raising, a grid whose rows have the
    lengths of the strings, hence a grid that is not rectangular. *)
Theorem C7_decode_keeps_unequal_rows (mapa : list string) :
  filas_desiguales mapa ->
  exists life,
    life_crear mapa = OK life /\
    map len life = map (fun lista => Z.of_nat (String.length lista)) mapa /\
    ~ rectangular life.
Proof.
  intros (s & t & Hs & Ht & Hdif).
  destruct (life_crear_longitudes mapa) as (life & Hlife & Hlen).
  exists life. split; [exact Hlife |]. split; [exact Hlen |].
  intros Hrect. apply Hdif.
  rewrite life_crear_map in Hlife. injection Hlife as <-.
  pose proof (rectangular_misma_len _ _ _ Hrect
                (in_map _ _ _ Hs) (in_map _ _ _ Ht)) as Heq.
  unfold len in Heq. rewrite !length_map, !length_chars in Heq. lia.
Qed.

Lemma C7_decode_keeps_unequal_rows_witness :
  exists life,
    life_crear ["##"; "#"]%string = OK life /\
    map len life
    = map (fun lista => Z.of_nat (String.length lista)) ["##"; "#"]%string /\
    ~ rectangular life.
Proof.
  apply C7_decode_keeps_unequal_rows.
  exists "##"%string, "#"%string. cbn. repeat split; auto; discriminate.
Defined.

(** C7 (as stated) fails: on the two lines ["#"] and [""], of lengths
    1 and 0, [life_crear] raises nothing and returns the jagged grid
    [[[True], []]]. *)
Lemma C7_decode_returns_jagged_grid :
  filas_desiguales ["#"; ""]%string /\
  life_crear ["#"; ""]%string = OK [[true]; []] /\
  (forall e, life_crear ["#"; ""]%string <> Raise e) /\
  ~ rectangular [[true]; []].
Proof.
  split; [| split; [| split]].
  - exists "#"%string, ""%string. cbn. repeat split; auto; discriminate.
  - reflexivity.
  - intros e. discriminate.
  - intros Hrect. inversion Hrect as [| ? ? _ Hresto]; subst.
    inversion Hresto as [| ? ? Hvacia _]; subst. discriminate Hvacia.
Qed.

(** ** The neighbour counter *)

Lemma primera_fila (life : grid) :
  0 < len life -> getitem life 0 = OK (hd [] life).
Proof.
  intros Hpos. destruct life as [| fila_0 resto]; [cbn in Hpos; lia |].
  apply getitem_primera.
Qed.

(** A rectangular grid with an in-bounds position is a valid grid. *)
Lemma valido_en_rango (life : grid) (f c : Z) :
  rectangular life -> en_rango life f c -> valido life.
Proof.
  intros Hrect (Hf & Hc). split; [exact Hrect |]. split; lia.
Qed.

Section Vecinos.

Variable life : grid.
Hypothesis Hvalido : valido life.

Lemma filas_pos : 0 < len life.
Proof. exact (proj1 (proj2 Hvalido)). Qed.

Lemma columnas_pos : 0 < len (hd [] life).
Proof. exact (proj2 (proj2 Hvalido)). Qed.

Lemma leer_fila (f : Z) :
  0 <= f < filas life ->
  getitem life f = OK (nth (Z.to_nat f) life []) /\
  len (nth (Z.to_nat f) life []) = columnas life.
Proof.
  intros Hf. split; [now apply getitem_en_rango |].
  destruct Hvalido as (Hrect & _). unfold rectangular in Hrect.
  rewrite Forall_forall in Hrect. apply Hrect, nth_In.
  unfold filas, len in Hf. lia.
Qed.

Lemma leer_celda (f c : Z) :
  en_rango life f c ->
  (fila <- getitem life f ;; getitem fila c) = OK (celda_en life f c).
Proof.
  intros (Hf & Hc). destruct (leer_fila f Hf) as (-> & Hlen).
  rewrite bind_OK. apply getitem_en_rango. now rewrite Hlen.
Qed.

(** One iteration of the inner loop, for any integers [x] and [y]:
    both coordinates are wrapped into the grid, so the two reads
    succeed. *)
Lemma leer_vecino (x y contador : Z) :
  (fila_adyacente <- mod_ x (len life) ;;
   columna_adyacente <- mod_ y (len (hd [] life)) ;;
   fila <- getitem life fila_adyacente ;;
   celda <- getitem fila columna_adyacente ;;
   OK (contador + Z.b2z celda))
  = OK (contador
        + Z.b2z (celda_en life (x mod filas life) (y mod columnas life))).
Proof.
  pose proof filas_pos as Hf. pose proof columnas_pos as Hc.
  rewrite !mod_OK, !bind_OK by lia.
  assert (Hin : en_rango life (x mod filas life) (y mod columnas life)).
  { split; apply Z.mod_pos_bound; assumption. }
  pose proof (leer_celda _ _ Hin) as Hleer.
  unfold filas, columnas in *.
  destruct (getitem life (x mod len life)) as [fila | e];
    [| discriminate Hleer].
  rewrite bind_OK in Hleer. rewrite bind_OK, Hleer. reflexivity.
Qed.

(** On a valid grid the counter never raises, whatever the position,
    and returns the sum over the eight offsets. *)
Lemma cant_adyacentes_suma (f c : Z) :
  cant_adyacentes life f c = OK (vivos_alrededor life f c).
Proof.
  unfold cant_adyacentes. rewrite (primera_fila life filas_pos), bind_OK.
  change (range (-1) 2) with [-1; 0; 1].
  cbn [for_each andb Z.eqb].
  repeat first [rewrite leer_vecino | rewrite bind_OK].
  reflexivity.
Qed.

End Vecinos.

(** A sum of [n] cell states lies between [0] and [n]. *)
Lemma suma_acotada {D : Type} (g : D -> bool) (ds : list D) (total : Z) :
  total <= fold_left (fun total d => total + Z.b2z (g d)) ds total
        <= total + len ds.
Proof.
  revert total. induction ds as [| d ds IH]; intros total.
  - cbn. lia.
  - cbn [fold_left]. specialize (IH (total + Z.b2z (g d))).
    unfold len in *. cbn [List.length]. destruct (g d); cbn [Z.b2z] in *; lia.
Qed.

Lemma vivos_alrededor_acotado (life : grid) (f c : Z) :
  0 <= vivos_alrededor life f c <= 8.
Proof.
  unfold vivos_alrededor.
  exact (suma_acotada
           (fun d => celda_en life ((f + fst d) mod filas life)
                                   ((c + snd d) mod columnas life))
           desplazamientos 0).
Qed.

(** The count only depends on the position modulo the dimensions. *)
Lemma vivos_alrededor_mod (life : grid) (f c : Z) :
  vivos_alrededor life (f mod filas life) (c mod columnas life)
  = vivos_alrededor life f c.
Proof.
  unfold vivos_alrededor, desplazamientos. cbn [fold_left fst snd].
  now rewrite !Zplus_mod_idemp_l.
Qed.

(** C4. On the 3x3 grid whose only living cell is the top-left one,
    the neighbour counter at the bottom-right cell [(2, 2)] returns 1:
    through the wrap-around, [(0, 0)] is a diagonal neighbour of
    [(2, 2)]. *)
Theorem C4_toroidal_corner_count : cant_adyacentes solo_esquina 2 2 = OK 1.
Proof. reflexivity. Qed.

(** C10. On every non-empty rectangular grid and at every in-bounds
    position, the neighbour counter returns the sum of the cells at
    the eight offsets (all but [(0, 0)]), an integer between 0 and 8. *)
Theorem C10_neighbor_count_range (life : grid) (f c : Z) :
  life <> [] ->
  rectangular life ->
  en_rango life f c ->
  exists n,
    cant_adyacentes life f c = OK n /\
    n = vivos_alrededor life f c /\
    0 <= n <= 8.
Proof.
  intros _ Hrect Hpos. exists (vivos_alrededor life f c).
  split; [| split; [reflexivity | apply vivos_alrededor_acotado]].
  apply cant_adyacentes_suma. now apply (valido_en_rango life f c).
Qed.

Lemma solo_esquina_rectangular : rectangular solo_esquina.
Proof. repeat constructor. Qed.

Lemma C10_neighbor_count_range_witness :
  exists n,
    cant_adyacentes solo_esquina 1 1 = OK n /\
    n = vivos_alrededor solo_esquina 1 1 /\
    0 <= n <= 8.
Proof.
  apply C10_neighbor_count_range.
  - discriminate.
  - exact solo_esquina_rectangular.
  - unfold en_rango. cbn. lia.
Defined.

(** C8 (as amended). The neighbour counter checks no bounds: on every
    valid grid it returns a count, without raising, at every integer
    position, inside the grid or not; a position outside is wrapped
    modulo the dimensions, so the count at [(f, c)] is the count at
    [(f mod filas, c mod columnas)]. *)
Theorem C8_neighbor_count_never_raises (life : grid) (f c : Z) :
  valido life ->
  exists n,
    cant_adyacentes life f c = OK n /\
    cant_adyacentes life (f mod filas life) (c mod columnas life) = OK n /\
    en_rango life (f mod filas life) (c mod columnas life).
Proof.
  intros Hval. exists (vivos_alrededor life f c).
  rewrite !cant_adyacentes_suma by assumption.
  split; [reflexivity |]. split; [now rewrite vivos_alrededor_mod |].
  destruct Hval as (_ & Hf & Hc). split; now apply Z.mod_pos_bound.
Qed.

Lemma solo_esquina_valido : valido solo_esquina.
Proof.
  split; [exact solo_esquina_rectangular |]. cbn. lia.
Qed.

Lemma C8_neighbor_count_never_raises_witness :
  exists n,
    cant_adyacentes solo_esquina (-1) 4 = OK n /\
    cant_adyacentes solo_esquina (-1 mod filas solo_esquina)
                                 (4 mod columnas solo_esquina) = OK n /\
    en_rango solo_esquina (-1 mod filas solo_esquina)
                          (4 mod columnas solo_esquina).
Proof.
  apply C8_neighbor_count_never_raises. exact solo_esquina_valido.
Defined.

(** C8 (as stated) fails: [(4, 4)] is outside the 3x3 grid, and the
    counter raises nothing there; it returns 1, the count at
    [(1, 1)]. *)
Lemma C8_out_of_bounds_position_is_wrapped :
  ~ en_rango solo_esquina 4 4 /\
  cant_adyacentes solo_esquina 4 4 = OK 1 /\
  (forall e, cant_adyacentes solo_esquina 4 4 <> Raise e).
Proof.
  split; [| split].
  - unfold en_rango. cbn. lia.
  - reflexivity.
  - intros e. discriminate.
Qed.

(** ** Grids given by a function of the position *)

Lemma nth_range_0 {B : Type} (g : Z -> B) (n k : Z) (d : B) :
  0 <= k < n -> nth (Z.to_nat k) (map g (range 0 n)) d = g k.
Proof.
  intros Hk. unfold range. rewrite map_map, Z.sub_0_r.
  rewrite (nth_indep _ d (g (0 + Z.of_nat 0)))
    by (rewrite length_map, length_seq; lia).
  rewrite (map_nth (fun i => g (0 + Z.of_nat i)) (seq 0 (Z.to_nat n)) 0%nat).
  rewrite seq_nth by lia. f_equal. lia.
Qed.

Lemma len_map_range {B : Type} (g : Z -> B) (n : Z) :
  0 <= n -> len (map g (range 0 n)) = n.
Proof.
  intros Hn. unfold len. rewrite length_map, length_range. lia.
Qed.

Section Tabla.

Variables (R C : Z) (p : Z -> Z -> bool).
Hypothesis HR : 0 <= R.
Hypothesis HC : 0 <= C.

Lemma filas_tabla : filas (tabla R C p) = R.
Proof. unfold filas, tabla. now apply len_map_range. Qed.

Lemma filas_de_tabla (fila : list bool) :
  In fila (tabla R C p) -> len fila = C.
Proof.
  unfold tabla. rewrite in_map_iff. intros (f & <- & _).
  now apply len_map_range.
Qed.

Lemma columnas_tabla : 0 < R -> columnas (tabla R C p) = C.
Proof.
  intros Hpos. unfold columnas. apply filas_de_tabla.
  pose proof filas_tabla as Hf. unfold filas, len in Hf.
  destruct (tabla R C p) as [| fila resto]; [cbn in Hf; lia | now left].
Qed.

Lemma tabla_rectangular : rectangular (tabla R C p).
Proof.
  unfold rectangular. apply Forall_forall. intros fila Hin.
  rewrite (filas_de_tabla fila Hin). symmetry. apply columnas_tabla.
  pose proof filas_tabla as Hf. unfold filas, len in Hf.
  destruct (tabla R C p); [destruct Hin | cbn [List.length] in Hf; lia].
Qed.

Lemma celda_en_tabla (f c : Z) :
  0 <= f < R -> 0 <= c < C -> celda_en (tabla R C p) f c = p f c.
Proof.
  intros Hf Hc. unfold celda_en, tabla.
  rewrite (nth_range_0 (fun f => map (fun c => p f c) (range 0 C))) by lia.
  now rewrite (nth_range_0 (fun c => p f c)).
Qed.

End Tabla.

(** Two tables that agree at every position are the same grid. *)
Lemma tabla_ext (R C : Z) (p q : Z -> Z -> bool) :
  (forall f c, 0 <= f < R -> 0 <= c < C -> p f c = q f c) ->
  tabla R C p = tabla R C q.
Proof.
  intros Hpq. unfold tabla. apply map_ext_in. intros f Hf.
  apply map_ext_in. intros c Hc.
  apply In_range in Hf, Hc. apply Hpq; lia.
Qed.

(** ** The generation step *)

Lemma celda_siguiente_regla (life : grid) (f c : Z) :
  valido life -> en_rango life f c ->
  celda_siguiente life f c = OK (celda_nueva life f c).
Proof.
  intros Hval Hpos. unfold celda_siguiente.
  destruct (leer_fila life Hval f (proj1 Hpos)) as (-> & Hlen).
  rewrite bind_OK.
  rewrite (getitem_en_rango _ c false) by (rewrite Hlen; apply Hpos).
  rewrite bind_OK, (cant_adyacentes_suma life Hval), bind_OK.
  fold (celda_en life f c). unfold celda_nueva, regla.
  destruct (celda_en life f c); cbn [Bool.eqb].
  - now destruct ((vivos_alrededor life f c =? 2)
                  || (vivos_alrededor life f c =? 3)).
  - now destruct (vivos_alrededor life f c =? 3).
Qed.

(** On a rectangular grid the step never raises, and its result is the
    table of the rule over the positions of the input. *)
Lemma life_siguiente_tabla (life : grid) :
  rectangular life ->
  life_siguiente life
  = OK (tabla (filas life) (columnas life) (celda_nueva life)).
Proof.
  intros Hrect. unfold life_siguiente, tabla.
  rewrite <- (app_nil_l (map _ (range 0 (filas life)))).
  rewrite <- (for_each_append
    (fun f => OK (map (fun c => celda_nueva life f c)
                      (range 0 (columnas life))))) by reflexivity.
  apply for_each_ext. intros siguiente f Hf. apply In_range in Hf.
  assert (Hfilas : 0 < len life) by (unfold filas in Hf; lia).
  rewrite (primera_fila life Hfilas), !bind_OK.
  fold (columnas life).
  rewrite (for_each_append (fun c => celda_siguiente life f c)
                           (fun c => celda_nueva life f c)).
  - reflexivity.
  - intros c Hc. apply In_range in Hc.
    apply celda_siguiente_regla; [| split; [exact Hf | exact Hc]].
    apply (valido_en_rango life f c Hrect). split; [exact Hf | exact Hc].
Qed.

Lemma leer_en_rango (life : grid) (f c : Z) :
  valido life -> en_rango life f c -> leer life f c = OK (celda_en life f c).
Proof. intros Hval Hpos. now apply leer_celda. Qed.

Lemma filas_nonneg (life : grid) : 0 <= filas life.
Proof. apply len_nonneg. Qed.

Lemma columnas_nonneg (life : grid) : 0 <= columnas life.
Proof. apply len_nonneg. Qed.

Lemma regla_true (viva : bool) (n : Z) :
  regla viva n = true <->
  (viva = true /\ (n = 2 \/ n = 3)) \/ (viva = false /\ n = 3).
Proof.
  unfold regla. destruct viva.
  - rewrite orb_true_iff, !Z.eqb_eq. intuition discriminate.
  - rewrite Z.eqb_eq. intuition discriminate.
Qed.

(** C1. On every rectangular grid and at every in-bounds position
    [(f, c)], the generation step returns a grid whose cell [(f, c)] is
    alive exactly when the input cell is alive with a live-neighbour
    count (on the input grid) of 2 or 3, or dead with a count of 3;
    it is dead in every other case. *)
Theorem C1_generation_rule (life : grid) (f c : Z) :
  rectangular life ->
  en_rango life f c ->
  exists siguiente viva n viva',
    life_siguiente life = OK siguiente /\
    leer life f c = OK viva /\
    cant_adyacentes life f c = OK n /\
    leer siguiente f c = OK viva' /\
    (viva' = true <->
     (viva = true /\ (n = 2 \/ n = 3)) \/ (viva = false /\ n = 3)).
Proof.
  intros Hrect Hpos.
  pose proof (valido_en_rango life f c Hrect Hpos) as Hval.
  pose proof (filas_nonneg life) as HR.
  pose proof (columnas_nonneg life) as HC.
  exists (tabla (filas life) (columnas life) (celda_nueva life)),
         (celda_en life f c), (vivos_alrededor life f c),
         (celda_nueva life f c).
  split; [now apply life_siguiente_tabla |].
  split; [now apply leer_en_rango |].
  split; [now apply cant_adyacentes_suma |].
  split; [| apply regla_true].
  destruct Hval as (_ & Hf & Hc).
  rewrite leer_en_rango.
  - f_equal. apply celda_en_tabla; apply Hpos.
  - split; [now apply tabla_rectangular |].
    now rewrite filas_tabla, columnas_tabla.
  - unfold en_rango. rewrite filas_tabla, columnas_tabla; assumption.
Qed.

Lemma C1_generation_rule_witness :
  exists siguiente viva n viva',
    life_siguiente solo_esquina = OK siguiente /\
    leer solo_esquina 0 0 = OK viva /\
    cant_adyacentes solo_esquina 0 0 = OK n /\
    leer siguiente 0 0 = OK viva' /\
    (viva' = true <->
     (viva = true /\ (n = 2 \/ n = 3)) \/ (viva = false /\ n = 3)).
Proof.
  apply C1_generation_rule.
  - exact solo_esquina_rectangular.
  - unfold en_rango. cbn. lia.
Defined.

(** C2. For every non-empty rectangular grid, the generation step
    returns a grid with as many rows as its input, every row of which
    has the length of the rows of the input. *)
Theorem C2_dimensions_preserved (life : grid) :
  life <> [] ->
  rectangular life ->
  exists siguiente,
    life_siguiente life = OK siguiente /\
    len siguiente = len life /\
    Forall (fun fila => len fila = columnas life) siguiente /\
    Forall (fun fila => len fila = columnas life) life.
Proof.
  intros _ Hrect.
  exists (tabla (filas life) (columnas life) (celda_nueva life)).
  split; [now apply life_siguiente_tabla |].
  split; [apply filas_tabla, filas_nonneg |].
  split; [| exact Hrect].
  apply Forall_forall. intros fila Hin.
  apply (filas_de_tabla (filas life) (columnas life) (celda_nueva life));
    [apply columnas_nonneg | exact Hin].
Qed.

Lemma C2_dimensions_preserved_witness :
  exists siguiente,
    life_siguiente solo_esquina = OK siguiente /\
    len siguiente = len solo_esquina /\
    Forall (fun fila => len fila = columnas solo_esquina) siguiente /\
    Forall (fun fila => len fila = columnas solo_esquina) solo_esquina.
Proof.
  apply C2_dimensions_preserved.
  - discriminate.
  - exact solo_esquina_rectangular.
Defined.

(** C5 (as amended). On a 1x1 grid the eight offsets all wrap to the
    single cell, which is read eight times: the neighbour counter at
    [(0, 0)] returns 0 when the cell is dead and 8 when it is alive.
    The generation step raises nothing and returns a dead cell in both
    cases. *)
Theorem C5_single_cell_grid (viva : bool) :
  cant_adyacentes [[viva]] 0 0 = OK (if viva then 8 else 0) /\
  life_siguiente [[viva]] = OK [[false]].
Proof. destruct viva; split; reflexivity. Qed.

(** C5 (as stated) fails: on the 1x1 grid whose cell is alive the
    counter returns 8, not 0. *)
Lemma C5_single_live_cell_counts_itself :
  cant_adyacentes [[true]] 0 0 = OK 8 /\
  cant_adyacentes [[true]] 0 0 <> OK 0.
Proof. split; [reflexivity | discriminate]. Qed.

(** ** The blinker *)

Example blinker_5x5_es_blinker : blinker 5 5 2 2 = blinker_5x5.
Proof. reflexivity. Qed.

Example blinker_5x5_un_paso :
  life_siguiente blinker_5x5
  = OK [ [false; false; false; false; false];
         [false; false; true;  false; false];
         [false; false; true;  false; false];
         [false; false; true;  false; false];
         [false; false; false; false; false] ].
Proof. reflexivity. Qed.

Example blinker_5x5_dos_pasos :
  (life <- life_siguiente blinker_5x5 ;; life_siguiente life) = OK blinker_5x5.
Proof. reflexivity. Qed.

(** The step on a table is the table of [paso]. *)
Lemma life_siguiente_de_tabla (R C : Z) (p : Z -> Z -> bool) :
  0 < R -> 0 < C ->
  life_siguiente (tabla R C p) = OK (tabla R C (paso R C p)).
Proof.
  intros HR HC.
  rewrite life_siguiente_tabla by (apply tabla_rectangular; lia).
  rewrite filas_tabla, columnas_tabla by lia.
  f_equal. apply tabla_ext. intros f c Hf Hc.
  unfold celda_nueva, paso, vivos_alrededor.
  rewrite filas_tabla, columnas_tabla by lia.
  rewrite celda_en_tabla by lia.
  cbn [fold_left desplazamientos fst snd].
  rewrite !celda_en_tabla by (try apply Z.mod_pos_bound; lia).
  reflexivity.
Qed.

(** The neighbouring index on the torus, without the modulo. *)
Lemma mod_anterior (n x : Z) :
  0 <= x < n -> (x + -1) mod n = if x =? 0 then n - 1 else x - 1.
Proof.
  intros Hx. destruct (Z.eqb_spec x 0) as [-> | Hne].
  - replace (0 + -1) with (n - 1 + -1 * n) by lia.
    rewrite Z_mod_plus_full. apply Z.mod_small. lia.
  - apply Z.mod_small. lia.
Qed.

Lemma mod_mismo (n x : Z) : 0 <= x < n -> (x + 0) mod n = x.
Proof. intros Hx. rewrite Z.add_0_r. now apply Z.mod_small. Qed.

Lemma mod_posterior (n x : Z) :
  0 <= x < n -> (x + 1) mod n = if x + 1 =? n then 0 else x + 1.
Proof.
  intros Hx. destruct (Z.eqb_spec (x + 1) n) as [<- | Hne].
  - apply Z_mod_same_full.
  - apply Z.mod_small. lia.
Qed.

(** Settles every comparison of the goal, dropping the cases the
    arithmetic excludes. *)
Ltac comparar :=
  repeat match goal with
    | |- context [Z.eqb ?a ?b] => destruct (Z.eqb_spec a b); try lia
    | |- context [Z.leb ?a ?b] => destruct (Z.leb_spec a b); try lia
    end.

(** Whether [x] lies on the first or on the last line of [n]. *)
Ltac bordes x n :=
  destruct (Z.eqb_spec x 0); destruct (Z.eqb_spec (x + 1) n); try lia.

Section Blinker.

Variables R C r c : Z.
Hypothesis HR : 4 <= R.
Hypothesis HC : 4 <= C.
Hypothesis Hr : 1 <= r < R - 1.
Hypothesis Hc : 1 <= c < C - 1.

Lemma paso_horizontal (f k : Z) :
  0 <= f < R -> 0 <= k < C ->
  paso R C (horizontal r c) f k = vertical r c f k.
Proof.
  intros Hf Hk. unfold paso. cbn [fold_left desplazamientos fst snd].
  rewrite !(mod_anterior R f), !(mod_mismo R f), !(mod_posterior R f) by lia.
  rewrite !(mod_anterior C k), !(mod_mismo C k), !(mod_posterior C k) by lia.
  bordes f R; bordes k C.
  all: unfold horizontal, vertical; comparar; reflexivity.
Qed.

Lemma paso_vertical (f k : Z) :
  0 <= f < R -> 0 <= k < C ->
  paso R C (vertical r c) f k = horizontal r c f k.
Proof.
  intros Hf Hk. unfold paso. cbn [fold_left desplazamientos fst snd].
  rewrite !(mod_anterior R f), !(mod_mismo R f), !(mod_posterior R f) by lia.
  rewrite !(mod_anterior C k), !(mod_mismo C k), !(mod_posterior C k) by lia.
  bordes f R; bordes k C.
  all: unfold horizontal, vertical; comparar; reflexivity.
Qed.

(** One step turns the row of three into the column of three, and
    the column back into the row. *)
Lemma blinker_fases :
  life_siguiente (blinker R C r c) = OK (tabla R C (vertical r c)) /\
  life_siguiente (tabla R C (vertical r c)) = OK (blinker R C r c).
Proof.
  unfold blinker. rewrite !life_siguiente_de_tabla by lia.
  split; f_equal; apply tabla_ext; intros f k Hf Hk.
  - now apply paso_horizontal.
  - now apply paso_vertical.
Qed.

End Blinker.

Example blinker_4x4_dos_pasos :
  (life <- life_siguiente (blinker 4 4 1 1) ;; life_siguiente life)
  = OK (blinker 4 4 1 1).
Proof. reflexivity. Qed.

(** The two phases differ: cell [(r, c - 1)] lives in the row of three
    and is dead in the column of three. *)
Lemma blinker_fases_distintas (R C r c : Z) :
  1 <= r < R - 1 -> 1 <= c < C - 1 ->
  tabla R C (vertical r c) <> blinker R C r c.
Proof.
  intros Hr Hc Heq.
  apply (f_equal (fun life => celda_en life r (c - 1))) in Heq.
  unfold blinker in Heq. rewrite !celda_en_tabla in Heq by lia.
  unfold horizontal, vertical in Heq.
  rewrite Z.eqb_refl, Z.leb_refl in Heq.
  destruct (Z.eqb_spec (c - 1) c) as [Hbad | _]; [lia |].
  destruct (Z.leb_spec (c - 1) (c + 1)) as [_ | Hbad]; [| lia].
  discriminate Heq.
Qed.

(** C6. A blinker, three living cells side by side in row [r] around
    column [c] of an otherwise dead grid that is large enough (at least
    4 rows and 4 columns, the row [r] and the column [c] not on the
    border), oscillates with period 2.  The first generation step
    returns another grid, the three cells of column [c] around row
    [r]; the second step returns exactly the original grid.  The 5x5
    grid with cells [(2, 1)], [(2, 2)], [(2, 3)] alive is the instance
    [blinker 5 5 2 2]. *)
Theorem C6_blinker_period_two (R C r c : Z) :
  4 <= R -> 4 <= C -> 1 <= r < R - 1 -> 1 <= c < C - 1 ->
  exists fase,
    life_siguiente (blinker R C r c) = OK fase /\
    fase = tabla R C (vertical r c) /\
    fase <> blinker R C r c /\
    life_siguiente fase = OK (blinker R C r c) /\
    (life <- life_siguiente (blinker R C r c) ;; life_siguiente life)
    = OK (blinker R C r c).
Proof.
  intros HR HC Hr Hc.
  destruct (blinker_fases R C r c HR HC Hr Hc) as (Hida & Hvuelta).
  exists (tabla R C (vertical r c)).
  split; [exact Hida |]. split; [reflexivity |].
  split; [now apply blinker_fases_distintas |].
  split; [exact Hvuelta |].
  rewrite Hida. exact Hvuelta.
Qed.

Lemma C6_blinker_period_two_witness :
  exists fase,
    life_siguiente blinker_5x5 = OK fase /\
    fase = tabla 5 5 (vertical 2 2) /\
    fase <> blinker_5x5 /\
    life_siguiente fase = OK blinker_5x5 /\
    (life <- life_siguiente blinker_5x5 ;; life_siguiente life)
    = OK blinker_5x5.
Proof.
  apply (C6_blinker_period_two 5 5 2 2); lia.
Defined.

(** * Further properties of the program *)

(** ** The codec, on any input *)

Lemma simbolo_de_es_simbolo (viva : bool) : simbolo (simbolo_de viva).
Proof. destruct viva; [now right | now left]. Qed.

Lemma es_celula_simbolo_de (viva : bool) : es_celula (simbolo_de viva) = viva.
Proof. now destruct viva. Qed.

Lemma chars_de_fila (fila : list bool) :
  chars (string_of_list_ascii (map simbolo_de fila)) = map simbolo_de fila.
Proof. apply list_ascii_of_string_of_list_ascii. Qed.

(** X1. [life_mostrar] accepts every grid, rectangular or not: it
    returns one line per row, as long as the row, and writes nothing
    but ['.'] and ['#']. *)
Theorem mostrar_forma (life : grid) :
  exists lineas,
    life_mostrar life = OK lineas /\
    Forall2
      (fun fila linea =>
         Z.of_nat (String.length linea) = len fila /\ bien_formada linea)
      life lineas.
Proof.
  eexists. split; [apply life_mostrar_map |].
  induction life as [| fila life IH]; cbn [map]; constructor; [| exact IH].
  split.
  - rewrite <- length_chars, chars_de_fila, length_map. reflexivity.
  - unfold bien_formada. rewrite chars_de_fila.
    apply Forall_forall. intros a Ha. apply in_map_iff in Ha.
    destruct Ha as (viva & <- & _). apply simbolo_de_es_simbolo.
Qed.

(** X2. Decoding what was encoded gives the grid back, for every grid
    (also empty or jagged): [life_crear(life_mostrar(life)) == life]. *)
Theorem crear_de_mostrar (life : grid) :
  (lineas <- life_mostrar life ;; life_crear lineas) = OK life.
Proof.
  rewrite life_mostrar_map, bind_OK, life_crear_map. apply f_equal.
  rewrite map_map.
  rewrite (map_ext _ (fun fila => fila)); [apply map_id |].
  intros fila. rewrite chars_de_fila, map_map.
  rewrite (map_ext _ (fun viva => viva)); [apply map_id |].
  apply es_celula_simbolo_de.
Qed.

(** X3. Encoding what was decoded rewrites the text over the two
    symbols: every ['#'] is kept and every other character becomes
    ['.'], line by line. *)
Theorem mostrar_de_crear (lineas : list string) :
  (life <- life_crear lineas ;; life_mostrar life)
  = OK (map (fun linea => string_of_list_ascii (map normalizar (chars linea)))
            lineas).
Proof.
  rewrite life_crear_map, bind_OK, life_mostrar_map. f_equal.
  rewrite map_map. apply map_ext. intros linea. f_equal.
  rewrite map_map. apply map_ext. intros a.
  unfold simbolo_de, es_celula, normalizar. reflexivity.
Qed.

(** X4. On a text of at least one line, all of the same positive
    length [n], [life_crear] returns a grid of the data model:
    rectangular, with one row per line and [n] columns. *)
Theorem crear_valido (lineas : list string) (n : nat) :
  lineas <> [] ->
  (0 < n)%nat ->
  (forall linea, In linea lineas -> String.length linea = n) ->
  exists life,
    life_crear lineas = OK life /\
    valido life /\
    filas life = len lineas /\
    columnas life = Z.of_nat n.
Proof.
  intros Hne Hn Hlen. eexists. split; [apply life_crear_map |].
  assert (Hfila : forall fila,
             In fila (map (fun l => map es_celula (chars l)) lineas) ->
             len fila = Z.of_nat n).
  { intros fila Hin. apply in_map_iff in Hin. destruct Hin as (l & <- & Hl).
    unfold len. now rewrite length_map, length_chars, (Hlen l Hl). }
  assert (Hfilas : filas (map (fun l => map es_celula (chars l)) lineas)
                   = len lineas).
  { unfold filas, len. now rewrite length_map. }
  assert (Hcols : columnas (map (fun l => map es_celula (chars l)) lineas)
                  = Z.of_nat n).
  { destruct lineas as [| l resto]; [contradiction |].
    apply Hfila. now left. }
  split; [| split; [exact Hfilas | exact Hcols]].
  split; [| split].
  - apply Forall_forall. intros fila Hin. rewrite Hcols. now apply Hfila.
  - rewrite Hfilas. destruct lineas; [contradiction |].
    unfold len. cbn [List.length]. lia.
  - rewrite Hcols. lia.
Qed.

Lemma crear_valido_witness :
  exists life,
    life_crear mapa_inicial = OK life /\
    valido life /\
    filas life = len mapa_inicial /\
    columnas life = Z.of_nat 10.
Proof.
  apply crear_valido.
  - discriminate.
  - lia.
  - intros linea Hin. cbn in Hin.
    repeat (destruct Hin as [<- | Hin]; [reflexivity |]). destruct Hin.
Defined.

(** ** Grids that are not rectangular *)

Lemma getitem_negativo {A : Type} (l : list A) (k : Z) (d : A) :
  - len l <= k < 0 -> getitem l k = OK (nth (Z.to_nat (k + len l)) l d).
Proof.
  intros Hk. unfold getitem.
  destruct (Z.ltb_spec k 0) as [_ | Hpos]; [| lia].
  destruct (Z.ltb_spec (k + len l) 0) as [Hneg | _]; [lia |].
  destruct (Z.leb_spec (len l) (k + len l)) as [Hbig | _]; [lia |].
  cbn [orb].
  destruct (nth_error l (Z.to_nat (k + len l))) as [a |] eqn:E.
  - f_equal. symmetry. now apply nth_error_nth.
  - apply nth_error_None in E. unfold len in *. lia.
Qed.

Lemma getitem_sin_division {A : Type} (l : list A) (k : Z) :
  getitem l k <> Raise ZeroDivisionError.
Proof.
  unfold getitem.
  destruct ((_ <? 0) || (len l <=? _)); [discriminate |].
  destruct (nth_error l _); discriminate.
Qed.

(** A loop raises [ZeroDivisionError] only if one of its turns does. *)
Lemma for_each_sin_division {A S : Type} (body : S -> A -> result S)
    (xs : list A) (s : S) :
  (forall s x, In x xs -> body s x <> Raise ZeroDivisionError) ->
  for_each xs s body <> Raise ZeroDivisionError.
Proof.
  revert s. induction xs as [| x xs IH]; intros s Hbody; [discriminate |].
  cbn [for_each]. pose proof (Hbody s x (or_introl eq_refl)) as Hx.
  destruct (body s x) as [s' | e]; cbn [bind].
  - apply IH. intros s0 y Hy. apply Hbody. now right.
  - exact Hx.
Qed.

(** When no turn can raise [ZeroDivisionError] and some turn always
    raises [IndexError], the loop raises [IndexError]: either at that
    turn or before it. *)
Lemma for_each_IndexError {A S : Type} (body : S -> A -> result S)
    (xs : list A) (s : S) (x : A) :
  (forall s y, In y xs -> body s y <> Raise ZeroDivisionError) ->
  In x xs ->
  (forall s, body s x = Raise IndexError) ->
  for_each xs s body = Raise IndexError.
Proof.
  revert s. induction xs as [| y xs IH]; intros s Hbody Hin Hx; [destruct Hin |].
  cbn [for_each]. pose proof (Hbody s y (or_introl eq_refl)) as Hy.
  destruct (body s y) as [s' | [|]] eqn:E; cbn [bind].
  - destruct Hin as [-> | Hin]; [rewrite Hx in E; discriminate |].
    apply IH; [| exact Hin | exact Hx].
    intros s0 z Hz. apply Hbody. now right.
  - reflexivity.
  - contradiction.
Qed.

Lemma bind_sin_division {A B : Type} (r : result A) (k : A -> result B) :
  r <> Raise ZeroDivisionError ->
  (forall a, k a <> Raise ZeroDivisionError) ->
  bind r k <> Raise ZeroDivisionError.
Proof.
  intros Hr Hk. destruct r as [a | e]; cbn [bind]; [apply Hk |].
  intros Heq. apply Hr. injection Heq as ->. reflexivity.
Qed.

Section Holgado.

Variable life : grid.
Hypothesis Hholgado : holgado life.
Hypothesis Hfilas : 0 < filas life.
Hypothesis Hcolumnas : 0 < columnas life.

Lemma leer_fila_holgado (f : Z) :
  0 <= f < filas life ->
  getitem life f = OK (nth (Z.to_nat f) life []) /\
  columnas life <= len (nth (Z.to_nat f) life []).
Proof.
  intros Hf. split; [now apply getitem_en_rango |].
  unfold holgado in Hholgado. rewrite Forall_forall in Hholgado.
  apply Hholgado, nth_In. unfold filas, len in Hf. lia.
Qed.

Lemma leer_vecino_holgado (x y contador : Z) :
  (fila_adyacente <- mod_ x (len life) ;;
   columna_adyacente <- mod_ y (len (hd [] life)) ;;
   fila <- getitem life fila_adyacente ;;
   celda <- getitem fila columna_adyacente ;;
   OK (contador + Z.b2z celda))
  = OK (contador
        + Z.b2z (celda_en life (x mod filas life) (y mod columnas life))).
Proof.
  unfold filas, columnas in *.
  rewrite !mod_OK, !bind_OK by lia.
  pose proof (Z.mod_pos_bound x (len life) Hfilas) as Hx.
  pose proof (Z.mod_pos_bound y (len (hd [] life)) Hcolumnas) as Hy.
  destruct (leer_fila_holgado (x mod len life) Hx) as (-> & Hlen).
  rewrite bind_OK.
  rewrite (getitem_en_rango _ _ false) by (unfold columnas in Hlen; lia).
  reflexivity.
Qed.

Lemma cant_adyacentes_holgado (f c : Z) :
  cant_adyacentes life f c = OK (vivos_alrededor life f c).
Proof.
  unfold cant_adyacentes. rewrite (primera_fila life Hfilas), bind_OK.
  change (range (-1) 2) with [-1; 0; 1].
  cbn [for_each andb Z.eqb].
  repeat first [rewrite leer_vecino_holgado | rewrite bind_OK].
  reflexivity.
Qed.

Lemma celda_siguiente_holgado (f c : Z) :
  en_rango life f c ->
  celda_siguiente life f c = OK (celda_nueva life f c).
Proof.
  intros (Hf & Hc). unfold celda_siguiente.
  destruct (leer_fila_holgado f Hf) as (-> & Hlen).
  rewrite bind_OK.
  rewrite (getitem_en_rango _ c false) by lia.
  rewrite bind_OK, cant_adyacentes_holgado, bind_OK.
  fold (celda_en life f c). unfold celda_nueva, regla.
  destruct (celda_en life f c); cbn [Bool.eqb].
  - now destruct ((vivos_alrededor life f c =? 2)
                  || (vivos_alrededor life f c =? 3)).
  - now destruct (vivos_alrededor life f c =? 3).
Qed.

End Holgado.

(** X5. Without a first row, or with an empty first row, the
    neighbour counter fails at every position: [IndexError] on the
    empty grid (at [life[0]]), [ZeroDivisionError] when the first row
    is empty (at [% columnas]). *)
Theorem cant_adyacentes_sin_celdas (f c : Z) :
  cant_adyacentes [] f c = Raise IndexError /\
  forall resto, cant_adyacentes ([] :: resto) f c = Raise ZeroDivisionError.
Proof.
  split; [reflexivity |]. intros resto.
  unfold cant_adyacentes. rewrite getitem_primera, bind_OK.
  change (range (-1) 2) with [-1; 0; 1]. cbn [for_each andb Z.eqb].
  rewrite mod_OK by (pose proof (len_nonneg resto); unfold len; cbn [List.length]; lia).
  reflexivity.
Qed.

(** X6. The neighbour counter only reads the columns of the first
    row: on a grid with at least one cell in its first row and whose
    rows are all at least as long as the first one, it never raises,
    at any integer position, and returns the sum over the eight
    offsets taken modulo the number of rows and the length of the
    first row. *)
Theorem cant_adyacentes_filas_largas (life : grid) (f c : Z) :
  holgado life -> 0 < columnas life ->
  exists n,
    cant_adyacentes life f c = OK n /\
    n = vivos_alrededor life f c /\
    0 <= n <= 8.
Proof.
  intros Hhol Hcol. exists (vivos_alrededor life f c).
  split; [| split; [reflexivity | apply vivos_alrededor_acotado]].
  apply cant_adyacentes_holgado; try assumption.
  unfold filas, columnas, len in *. destruct life; cbn in *; lia.
Qed.

Lemma cant_adyacentes_filas_largas_witness :
  exists n,
    cant_adyacentes [[false; true]; [true; true; true]] 0 2 = OK n /\
    n = vivos_alrededor [[false; true]; [true; true; true]] 0 2 /\
    0 <= n <= 8.
Proof.
  apply cant_adyacentes_filas_largas.
  - repeat constructor; cbn; lia.
  - cbn. lia.
Defined.

(** On a grid whose rows are at least as long as the first, the step
    is the table of the rule over the rows and the columns of the
    first row. *)
Lemma life_siguiente_holgado (life : grid) :
  holgado life ->
  life_siguiente life
  = OK (tabla (filas life) (columnas life) (celda_nueva life)).
Proof.
  intros Hhol. unfold life_siguiente, tabla.
  rewrite <- (app_nil_l (map _ (range 0 (filas life)))).
  rewrite <- (for_each_append
    (fun f => OK (map (fun c => celda_nueva life f c)
                      (range 0 (columnas life))))) by reflexivity.
  apply for_each_ext. intros siguiente f Hf. apply In_range in Hf.
  assert (Hfilas : 0 < len life) by (unfold filas in Hf; lia).
  rewrite (primera_fila life Hfilas), !bind_OK.
  fold (columnas life).
  rewrite (for_each_append (fun c => celda_siguiente life f c)
                           (fun c => celda_nueva life f c)).
  - reflexivity.
  - intros c Hc. apply In_range in Hc.
    apply celda_siguiente_holgado; try assumption; [lia |].
    split; [exact Hf | exact Hc].
Qed.

(** X7. On a grid whose rows are all at least as long as the first
    one (jagged or not, also empty), the generation step never raises
    and returns a rectangular grid: as many rows as the input, each as
    long as the first row of the input.  Cells beyond that length are
    dropped, the others follow the rule. *)
Theorem siguiente_filas_largas (life : grid) :
  holgado life ->
  exists siguiente,
    life_siguiente life = OK siguiente /\
    len siguiente = len life /\
    Forall (fun fila => len fila = columnas life) siguiente /\
    forall f c, en_rango life f c ->
                leer siguiente f c = OK (celda_nueva life f c).
Proof.
  intros Hhol.
  pose proof (filas_nonneg life) as HR.
  pose proof (columnas_nonneg life) as HC.
  exists (tabla (filas life) (columnas life) (celda_nueva life)).
  split; [now apply life_siguiente_holgado |].
  split; [now apply filas_tabla |].
  split.
  - apply Forall_forall. intros fila Hin.
    now apply (filas_de_tabla (filas life) (columnas life) (celda_nueva life)).
  - intros f c (Hf & Hc). rewrite leer_en_rango.
    + f_equal. now apply celda_en_tabla.
    + split; [now apply tabla_rectangular |].
      rewrite filas_tabla, columnas_tabla; lia.
    + unfold en_rango. rewrite filas_tabla, columnas_tabla; lia.
Qed.

Lemma siguiente_filas_largas_witness :
  exists siguiente,
    life_siguiente [[false; true]; [true; true; true]] = OK siguiente /\
    len siguiente = len [[false; true]; [true; true; true]] /\
    Forall (fun fila =>
              len fila = columnas [[false; true]; [true; true; true]])
           siguiente /\
    forall f c,
      en_rango [[false; true]; [true; true; true]] f c ->
      leer siguiente f c
      = OK (celda_nueva [[false; true]; [true; true; true]] f c).
Proof.
  apply siguiente_filas_largas. repeat constructor; cbn; lia.
Defined.

Section SinDivision.

Variable life : grid.
Hypothesis Hfilas : 0 < len life.
Hypothesis Hcolumnas : 0 < columnas life.

Lemma cant_adyacentes_sin_division (f c : Z) :
  cant_adyacentes life f c <> Raise ZeroDivisionError.
Proof.
  unfold cant_adyacentes. rewrite (primera_fila life Hfilas), bind_OK.
  apply for_each_sin_division. intros contador i _.
  apply for_each_sin_division. intros contador' j _.
  destruct ((i =? 0) && (j =? 0)); [discriminate |].
  unfold columnas in Hcolumnas. rewrite !mod_OK, !bind_OK by lia.
  apply bind_sin_division; [apply getitem_sin_division |]. intros fila.
  apply bind_sin_division; [apply getitem_sin_division |]. intros celda.
  discriminate.
Qed.

Lemma celda_siguiente_sin_division (f c : Z) :
  celda_siguiente life f c <> Raise ZeroDivisionError.
Proof.
  unfold celda_siguiente.
  apply bind_sin_division; [apply getitem_sin_division |]. intros fila.
  apply bind_sin_division; [apply getitem_sin_division |]. intros celda.
  apply bind_sin_division; [apply cant_adyacentes_sin_division |]. intros n.
  destruct (Bool.eqb celda true), ((n =? 2) || (n =? 3)), (n =? 3);
    discriminate.
Qed.

Lemma fila_siguiente_sin_division (f : Z) (fila : list bool) :
  for_each (range 0 (columnas life)) fila
    (fun fila c => celda <- celda_siguiente life f c ;; OK (fila ++ [celda]))
  <> Raise ZeroDivisionError.
Proof.
  apply for_each_sin_division. intros fila' c _.
  apply bind_sin_division; [apply celda_siguiente_sin_division |].
  intros celda. discriminate.
Qed.

End SinDivision.

(** X8. When some row is shorter than the first one, the generation
    step raises [IndexError]: the walk over the columns of the first
    row runs off the short row, if no read around an earlier cell ran
    off it before. *)
Theorem siguiente_fila_corta_falla (life : grid) :
  (exists fila, In fila life /\ len fila < columnas life) ->
  life_siguiente life = Raise IndexError.
Proof.
  intros (fila & Hin & Hcorta).
  destruct (In_nth _ _ [] Hin) as (r & Hr & Hnth).
  assert (Hfilas : 0 < len life) by (unfold len; lia).
  assert (Hcolumnas : 0 < columnas life)
    by (pose proof (len_nonneg fila); lia).
  unfold life_siguiente.
  apply (for_each_IndexError _ _ _ (Z.of_nat r)).
  - intros siguiente f _. rewrite (primera_fila life Hfilas), bind_OK.
    apply bind_sin_division;
      [now apply fila_siguiente_sin_division | intros; discriminate].
  - apply In_range. unfold len. lia.
  - intros siguiente. rewrite (primera_fila life Hfilas), bind_OK.
    fold (columnas life).
    rewrite (for_each_IndexError _ _ _ (len fila)); [reflexivity | | |].
    + intros fila' c _.
      apply bind_sin_division;
        [now apply celda_siguiente_sin_division | intros; discriminate].
    + apply In_range. pose proof (len_nonneg fila). lia.
    + intros fila'. unfold celda_siguiente.
      rewrite (getitem_en_rango _ _ []) by (unfold len; lia).
      rewrite Nat2Z.id, Hnth, bind_OK.
      rewrite getitem_fuera by lia. reflexivity.
Qed.

Lemma siguiente_fila_corta_falla_witness :
  life_siguiente [[true; false; true]; [false; true; false]; [true]]
  = Raise IndexError.
Proof.
  apply siguiente_fila_corta_falla.
  exists [true]. split; [cbn; auto | cbn; lia].
Defined.

(** ** The indices [celda_siguiente] accepts *)

(** A read at an index of [-len, len) is the read at that index
    modulo the length. *)
Lemma getitem_mod {A : Type} (l : list A) (k : Z) (d : A) :
  - len l <= k < len l ->
  getitem l k = OK (nth (Z.to_nat (k mod len l)) l d).
Proof.
  intros Hk. destruct (Z.ltb_spec k 0) as [Hneg | Hpos].
  - rewrite (getitem_negativo l k d) by lia. do 3 f_equal.
    symmetry. replace k with (k + len l + -1 * len l) at 1 by lia.
    rewrite Z_mod_plus_full. apply Z.mod_small. lia.
  - rewrite (getitem_en_rango l k d) by lia.
    now rewrite Z.mod_small by lia.
Qed.

Section Indices.

Variable life : grid.
Hypothesis Hvalido : valido life.

Lemma leer_fila_mod (f : Z) :
  - filas life <= f < filas life ->
  getitem life f = OK (nth (Z.to_nat (f mod filas life)) life []) /\
  len (nth (Z.to_nat (f mod filas life)) life []) = columnas life.
Proof.
  intros Hf. split; [now apply getitem_mod |].
  destruct Hvalido as (Hrect & Hfilas & _). unfold rectangular in Hrect.
  rewrite Forall_forall in Hrect. apply Hrect, nth_In.
  pose proof (Z.mod_pos_bound f (filas life) Hfilas) as Hmod.
  unfold filas, len in *. lia.
Qed.

(** X9. On a valid grid [celda_siguiente] accepts the indices Python
    accepts: a row index in [-filas, filas) and a column index in
    [-columnas, columnas).  A negative index counts from the end, and
    the result is the rule applied at the position taken modulo the
    dimensions. *)
Theorem celda_siguiente_indices (f c : Z) :
  - filas life <= f < filas life ->
  - columnas life <= c < columnas life ->
  celda_siguiente life f c
  = OK (celda_nueva life (f mod filas life) (c mod columnas life)).
Proof.
  intros Hf Hc. unfold celda_siguiente.
  destruct (leer_fila_mod f Hf) as (-> & Hlen). rewrite bind_OK.
  rewrite (getitem_mod _ c false) by (rewrite Hlen; exact Hc).
  rewrite Hlen, bind_OK, (cant_adyacentes_suma life Hvalido), bind_OK.
  fold (celda_en life (f mod filas life) (c mod columnas life)).
  unfold celda_nueva. rewrite vivos_alrededor_mod. unfold regla.
  destruct (celda_en life (f mod filas life) (c mod columnas life));
    cbn [Bool.eqb].
  - now destruct ((vivos_alrededor life f c =? 2)
                  || (vivos_alrededor life f c =? 3)).
  - now destruct (vivos_alrededor life f c =? 3).
Qed.

(** X10. Outside these ranges [celda_siguiente] raises [IndexError],
    where the neighbour counter alone would have wrapped the
    position. *)
Theorem celda_siguiente_fuera (f c : Z) :
  f < - filas life \/ filas life <= f \/
  c < - columnas life \/ columnas life <= c ->
  celda_siguiente life f c = Raise IndexError /\
  cant_adyacentes life f c = OK (vivos_alrededor life f c).
Proof.
  intros Hfuera. split; [| now apply cant_adyacentes_suma].
  unfold celda_siguiente.
  destruct (Z.ltb_spec f (- filas life)) as [Hf1 | Hf1];
    [now rewrite getitem_fuera by (unfold filas in Hf1; lia) |].
  destruct (Z.leb_spec (filas life) f) as [Hf2 | Hf2];
    [now rewrite getitem_fuera by (unfold filas in Hf2; lia) |].
  destruct (leer_fila_mod f (conj Hf1 Hf2)) as (-> & Hlen).
  rewrite bind_OK. rewrite getitem_fuera by (rewrite Hlen; lia).
  reflexivity.
Qed.

End Indices.

Lemma celda_siguiente_indices_witness :
  celda_siguiente solo_esquina (-3) (-3)
  = OK (celda_nueva solo_esquina (-3 mod filas solo_esquina)
                                 (-3 mod columnas solo_esquina)).
Proof.
  apply (celda_siguiente_indices solo_esquina solo_esquina_valido);
    cbn; lia.
Defined.

Lemma celda_siguiente_fuera_witness :
  celda_siguiente solo_esquina 1 3 = Raise IndexError /\
  cant_adyacentes solo_esquina 1 3 = OK (vivos_alrededor solo_esquina 1 3).
Proof.
  apply (celda_siguiente_fuera solo_esquina solo_esquina_valido).
  cbn. lia.
Defined.

(** ** Any number of generations *)

(** The step keeps a valid grid valid, with the same dimensions. *)
Lemma life_siguiente_valido (life : grid) :
  valido life ->
  exists siguiente,
    life_siguiente life = OK siguiente /\
    valido siguiente /\
    filas siguiente = filas life /\
    columnas siguiente = columnas life.
Proof.
  intros (Hrect & Hf & Hc).
  exists (tabla (filas life) (columnas life) (celda_nueva life)).
  split; [now apply life_siguiente_tabla |].
  assert (Hfilas : filas (tabla (filas life) (columnas life) (celda_nueva life))
                   = filas life) by (apply filas_tabla; lia).
  assert (Hcols : columnas (tabla (filas life) (columnas life)
                                  (celda_nueva life)) = columnas life)
    by (apply columnas_tabla; lia).
  split; [| split; assumption].
  split; [apply tabla_rectangular; lia |]. rewrite Hfilas, Hcols. lia.
Qed.

Lemma generaciones_desde (life : grid) (k n : nat) :
  for_each (seq k n) life (fun life _ => life_siguiente life)
  = generaciones n life.
Proof.
  unfold generaciones. revert life k. induction n as [| n IH]; intros life k.
  - reflexivity.
  - cbn [seq for_each]. destruct (life_siguiente life) as [siguiente | e];
      cbn [bind]; [| reflexivity].
    now rewrite (IH siguiente (S k)), (IH siguiente 1%nat).
Qed.

Lemma generaciones_S (n : nat) (life : grid) :
  generaciones (S n) life
  = (siguiente <- life_siguiente life ;; generaciones n siguiente).
Proof.
  unfold generaciones at 1. cbn [seq for_each].
  destruct (life_siguiente life) as [siguiente | e]; cbn [bind];
    [apply generaciones_desde | reflexivity].
Qed.

(** X11. From a valid grid, any number of generation steps in a row
    runs without raising, and every generation is a valid grid with
    the dimensions of the first. *)
Theorem generaciones_valido (n : nat) (life : grid) :
  valido life ->
  exists final,
    generaciones n life = OK final /\
    valido final /\
    filas final = filas life /\
    columnas final = columnas life.
Proof.
  revert life. induction n as [| n IH]; intros life Hval.
  - exists life. repeat split; try reflexivity; apply Hval.
  - destruct (life_siguiente_valido life Hval)
      as (siguiente & Hsig & Hval' & Hf & Hc).
    destruct (IH siguiente Hval') as (final & Hfin & Hvalf & Hff & Hcf).
    exists final. rewrite generaciones_S, Hsig, bind_OK.
    repeat split; try apply Hvalf; [exact Hfin | lia | lia].
Qed.

Lemma generaciones_valido_witness :
  exists final,
    generaciones 7 solo_esquina = OK final /\
    valido final /\
    filas final = filas solo_esquina /\
    columnas final = columnas solo_esquina.
Proof.
  apply generaciones_valido. exact solo_esquina_valido.
Defined.

(** ** Simple populations *)

(** X12. On a grid of any size, at least 1 x 1, an empty board stays
    empty, and a full board is empty after one step: every cell of a
    full board counts eight living neighbours, also where the wrap
    makes a cell its own neighbour. *)
Theorem siguiente_uniforme (R C : Z) (viva : bool) :
  0 < R -> 0 < C ->
  life_siguiente (uniforme R C viva) = OK (uniforme R C false).
Proof.
  intros HR HC. unfold uniforme.
  rewrite life_siguiente_de_tabla by assumption.
  apply f_equal, tabla_ext. intros f c _ _.
  unfold paso. now destruct viva.
Qed.

Lemma siguiente_uniforme_witness :
  life_siguiente (uniforme 2 3 true) = OK (uniforme 2 3 false).
Proof. apply siguiente_uniforme; lia. Defined.

(** X13. On a grid of at least 2 rows and 2 columns, a single living
    cell dies and nothing is born: the next generation is empty. *)
Theorem siguiente_sola (R C r c : Z) :
  2 <= R -> 2 <= C -> 0 <= r < R -> 0 <= c < C ->
  life_siguiente (tabla R C (sola r c)) = OK (uniforme R C false).
Proof.
  intros HR HC Hr Hc. unfold uniforme.
  rewrite life_siguiente_de_tabla by lia.
  apply f_equal, tabla_ext. intros f k Hf Hk.
  unfold paso. cbn [fold_left desplazamientos fst snd].
  rewrite !(mod_anterior R f), !(mod_mismo R f), !(mod_posterior R f) by lia.
  rewrite !(mod_anterior C k), !(mod_mismo C k), !(mod_posterior C k) by lia.
  bordes f R; bordes k C.
  all: unfold sola; comparar; reflexivity.
Qed.

Lemma siguiente_sola_witness :
  life_siguiente (tabla 2 2 (sola 0 0)) = OK (uniforme 2 2 false).
Proof. apply siguiente_sola; lia. Defined.

(** With a single row the wrap brings the cell above and below every
    cell onto the row itself: a single living cell survives and has
    two children. *)
Example sola_en_una_fila :
  life_siguiente [[false; true; false; false; false]]
  = OK [[true; true; true; false; false]].
Proof. reflexivity. Qed.

(** X14. The 2 x 2 block is a still life on every grid of at least 3
    rows and 3 columns that holds it without wrapping it: the step
    returns the same grid. *)
Theorem siguiente_bloque (R C r c : Z) :
  3 <= R -> 3 <= C -> 0 <= r -> r + 1 < R -> 0 <= c -> c + 1 < C ->
  life_siguiente (tabla R C (bloque r c)) = OK (tabla R C (bloque r c)).
Proof.
  intros HR HC Hr Hr' Hc Hc'.
  rewrite life_siguiente_de_tabla by lia.
  apply f_equal, tabla_ext. intros f k Hf Hk.
  unfold paso. cbn [fold_left desplazamientos fst snd].
  rewrite !(mod_anterior R f), !(mod_mismo R f), !(mod_posterior R f) by lia.
  rewrite !(mod_anterior C k), !(mod_mismo C k), !(mod_posterior C k) by lia.
  bordes f R; bordes k C.
  all: unfold bloque; comparar; reflexivity.
Qed.

Lemma siguiente_bloque_witness :
  life_siguiente (tabla 3 3 (bloque 0 1)) = OK (tabla 3 3 (bloque 0 1)).
Proof. apply siguiente_bloque; lia. Defined.

(** ** The torus has no origin *)

Lemma vecino_desplazado (n x i a : Z) :
  ((x + i) mod n + a) mod n = ((x + a) mod n + i) mod n.
Proof. rewrite !Zplus_mod_idemp_l. f_equal. lia. Qed.

Lemma desplazar_conmuta (a b : Z) (life : grid) :
  valido life ->
  life_siguiente (desplazar a b life)
  = (siguiente <- life_siguiente life ;; OK (desplazar a b siguiente)).
Proof.
  intros (Hrect & HR & HC).
  rewrite (life_siguiente_tabla life Hrect), bind_OK.
  unfold desplazar. rewrite filas_tabla, columnas_tabla by lia.
  rewrite life_siguiente_de_tabla by assumption.
  apply f_equal, tabla_ext. intros f c Hf Hc.
  rewrite celda_en_tabla by (try apply Z.mod_pos_bound; lia).
  unfold paso, celda_nueva, vivos_alrededor.
  cbn [fold_left desplazamientos fst snd].
  rewrite !(vecino_desplazado (filas life) f _ a).
  rewrite !(vecino_desplazado (columnas life) c _ b).
  reflexivity.
Qed.

(** X15. The generation step commutes with the shifts of the torus:
    on a valid grid, stepping the grid shifted by [a] rows and [b]
    columns gives the next generation shifted by [a] rows and [b]
    columns, for all integers [a] and [b]. *)
Theorem siguiente_desplazar (a b : Z) (life : grid) :
  valido life ->
  life_siguiente (desplazar a b life)
  = (siguiente <- life_siguiente life ;; OK (desplazar a b siguiente)).
Proof. apply desplazar_conmuta. Qed.

Lemma siguiente_desplazar_witness :
  life_siguiente (desplazar 1 (-2) blinker_5x5)
  = (siguiente <- life_siguiente blinker_5x5 ;;
     OK (desplazar 1 (-2) siguiente)).
Proof.
  apply siguiente_desplazar. split; [repeat constructor | cbn; lia].
Defined.

(** ** The driver *)

Lemma linea_de_fila (fila : list bool) :
  String.length (string_of_list_ascii (map simbolo_de fila)) = List.length fila /\
  bien_formada (string_of_list_ascii (map simbolo_de fila)).
Proof.
  split.
  - now rewrite <- length_chars, chars_de_fila, length_map.
  - unfold bien_formada. rewrite chars_de_fila.
    apply Forall_forall. intros a Ha. apply in_map_iff in Ha.
    destruct Ha as (viva & <- & _). apply simbolo_de_es_simbolo.
Qed.

Lemma imprimir_lineas (lineas : list string) (salida : list evento) :
  for_each lineas salida (fun salida linea => OK (salida ++ [Print linea]))
  = OK (salida ++ map Print lineas).
Proof.
  exact (for_each_append (fun linea => OK (Print linea)) Print lineas salida
                         (fun _ _ => eq_refl)).
Qed.

(** One turn of the loop on a grid of 8 rows and 10 columns. *)
Lemma main_vuelta_8x10 (salida : list evento) (life : grid) :
  valido life -> filas life = 8 -> columnas life = 10 ->
  Forall evento_de_main salida ->
  exists salida' siguiente,
    main_vuelta (salida, life) = OK (salida', siguiente) /\
    life_siguiente life = OK siguiente /\
    valido siguiente /\ filas siguiente = 8 /\ columnas siguiente = 10 /\
    List.length salida' = (List.length salida + 11)%nat /\
    Forall evento_de_main salida'.
Proof.
  intros Hval Hf Hc Hsal.
  destruct (life_siguiente_valido life Hval)
    as (siguiente & Hsig & Hval' & Hf' & Hc').
  eexists. exists siguiente.
  unfold main_vuelta.
  rewrite life_mostrar_map, bind_OK, imprimir_lineas, bind_OK, Hsig, bind_OK.
  split; [reflexivity |]. split; [reflexivity |].
  split; [exact Hval' |]. split; [lia |]. split; [lia |]. split.
  - rewrite !length_app, !length_map. cbn [List.length].
    unfold filas, len in Hf. lia.
  - rewrite !Forall_app. repeat split; try exact Hsal.
    + apply Forall_forall. intros e He.
      rewrite map_map in He. apply in_map_iff in He.
      destruct He as (fila & <- & Hfila). right.
      destruct (linea_de_fila fila) as (-> & Hbf). split; [| exact Hbf].
      destruct Hval as (Hrect & _). unfold rectangular in Hrect.
      rewrite Forall_forall in Hrect. specialize (Hrect fila Hfila).
      unfold len in Hrect. lia.
    + repeat constructor.
    + repeat constructor.
    + repeat constructor.
Qed.

Lemma main_vueltas_8x10 (n k : nat) (salida : list evento) (life : grid) :
  valido life -> filas life = 8 -> columnas life = 10 ->
  Forall evento_de_main salida ->
  exists salida' final,
    for_each (seq k n) (salida, life) (fun estado _ => main_vuelta estado)
    = OK (salida', final) /\
    generaciones n life = OK final /\
    valido final /\ filas final = 8 /\ columnas final = 10 /\
    List.length salida' = (List.length salida + 11 * n)%nat /\
    Forall evento_de_main salida'.
Proof.
  revert k salida life. induction n as [| n IH];
    intros k salida life Hval Hf Hc Hsal.
  - exists salida, life. cbn [seq for_each].
    repeat split; try assumption; try apply Hval; lia.
  - destruct (main_vuelta_8x10 salida life Hval Hf Hc Hsal)
      as (salida1 & siguiente & Hvuelta & Hsig & Hval1 & Hf1 & Hc1 & Hlen1 & Hsal1).
    destruct (IH (S k) salida1 siguiente Hval1 Hf1 Hc1 Hsal1)
      as (salida' & final & Hresto & Hgen & Hvalf & Hff & Hcf & Hlenf & Hsalf).
    exists salida', final. cbn [seq for_each].
    rewrite Hvuelta, bind_OK, generaciones_S, Hsig, bind_OK.
    repeat split; try assumption; try apply Hvalf. lia.
Qed.

(** X16. However many times Enter is pressed, [main] runs its turns
    without an exception from the game: it returns the grid of the
    generation reached, which still has 8 rows and 10 columns, after 11
    events per turn, each of them a printed line of ten symbols ['.']
    or ['#'], a printed empty line, or the prompt. *)
Theorem main_nunca_falla (vueltas : nat) :
  exists inicial salida final,
    life_crear mapa_inicial = OK inicial /\
    main vueltas = OK (salida, final) /\
    generaciones vueltas inicial = OK final /\
    valido final /\ filas final = 8 /\ columnas final = 10 /\
    List.length salida = (11 * vueltas)%nat /\
    Forall evento_de_main salida.
Proof.
  assert (Hval : valido (map (fun l => map es_celula (chars l)) mapa_inicial)).
  { split; [repeat constructor | cbn; lia]. }
  destruct (main_vueltas_8x10 vueltas 0 [] _ Hval eq_refl eq_refl
                              (Forall_nil _))
    as (salida & final & Hmain & Hgen & Hvalf & Hf & Hc & Hlen & Hsal).
  exists (map (fun l => map es_celula (chars l)) mapa_inicial), salida, final.
  split; [apply life_crear_map |].
  split; [unfold main; rewrite life_crear_map, bind_OK; exact Hmain |].
  repeat split; try assumption; apply Hvalf.
Qed.

Example main_una_vuelta :
  exists final,
    main 1
    = OK (map Print mapa_inicial
            ++ [Print EmptyString; Input mensaje_enter; Print EmptyString],
          final).
Proof. eexists. reflexivity. Qed.

(** ** Patterns that travel *)

Example crear_mapa_inicial : life_crear mapa_inicial = OK tablero_inicial.
Proof. reflexivity. Qed.

Lemma tablero_inicial_valido : valido tablero_inicial.
Proof. split; [repeat constructor | cbn; lia]. Qed.

Lemma map_nth_range {B : Type} (l : list B) (d : B) :
  map (fun k => nth (Z.to_nat k) l d) (range 0 (len l)) = l.
Proof.
  apply (nth_ext _ _ d d).
  - rewrite length_map, length_range. unfold len. lia.
  - intros n Hn. rewrite length_map, length_range in Hn.
    rewrite <- (Nat2Z.id n) at 1.
    rewrite (nth_range_0 (fun k => nth (Z.to_nat k) l d))
      by (unfold len in *; lia).
    now rewrite Nat2Z.id.
Qed.

(** A rectangular grid is the table of its cells. *)
Lemma tabla_celda_en (life : grid) :
  rectangular life ->
  tabla (filas life) (columnas life) (celda_en life) = life.
Proof.
  intros Hrect. unfold tabla, celda_en, filas.
  transitivity (map (fun f => nth (Z.to_nat f) life []) (range 0 (len life)));
    [| apply map_nth_range].
  apply map_ext_in. intros f Hf. apply In_range in Hf.
  unfold rectangular in Hrect. rewrite Forall_forall in Hrect.
  rewrite <- (Hrect (nth (Z.to_nat f) life []))
    by (apply nth_In; unfold len in Hf; lia).
  apply map_nth_range.
Qed.

Section Desplazar.

Variable life : grid.
Hypothesis Hvalido : valido life.

Lemma desplazar_valido (a b : Z) :
  valido (desplazar a b life) /\
  filas (desplazar a b life) = filas life /\
  columnas (desplazar a b life) = columnas life.
Proof.
  destruct Hvalido as (_ & HR & HC). unfold desplazar.
  rewrite filas_tabla, columnas_tabla by lia.
  split; [| split; reflexivity].
  split; [apply tabla_rectangular; lia |].
  rewrite filas_tabla, columnas_tabla by lia. lia.
Qed.

Lemma desplazar_0 : desplazar 0 0 life = life.
Proof.
  destruct Hvalido as (Hrect & HR & HC).
  rewrite <- (tabla_celda_en life Hrect) at 2. unfold desplazar.
  apply tabla_ext. intros f c Hf Hc.
  now rewrite !Z.add_0_r, !Z.mod_small by lia.
Qed.

Lemma desplazar_desplazar (a b a' b' : Z) :
  desplazar a b (desplazar a' b' life) = desplazar (a + a') (b + b') life.
Proof.
  destruct (desplazar_valido a' b') as (_ & Hf' & Hc').
  destruct Hvalido as (_ & HR & HC).
  remember (desplazar a' b' life) as medio eqn:Hmedio.
  unfold desplazar. rewrite Hf', Hc'.
  apply tabla_ext. intros f c Hf Hc.
  subst medio. unfold desplazar.
  rewrite celda_en_tabla by (try apply Z.mod_pos_bound; lia).
  now rewrite !Zplus_mod_idemp_l, !Z.add_assoc.
Qed.

End Desplazar.

Lemma generaciones_desplazar (n : nat) (a b : Z) (life : grid) :
  valido life ->
  generaciones n (desplazar a b life)
  = (final <- generaciones n life ;; OK (desplazar a b final)).
Proof.
  revert life. induction n as [| n IH]; intros life Hval; [reflexivity |].
  rewrite !generaciones_S, desplazar_conmuta by assumption.
  destruct (life_siguiente_valido life Hval) as (siguiente & -> & Hval' & _).
  rewrite !bind_OK. now apply IH.
Qed.

Lemma generaciones_suma (n m : nat) (life : grid) :
  generaciones (n + m) life
  = (medio <- generaciones n life ;; generaciones m medio).
Proof.
  revert life. induction n as [| n IH]; intros life; [reflexivity |].
  cbn [Nat.add]. rewrite !generaciones_S.
  destruct (life_siguiente life) as [siguiente | e]; cbn [bind];
    [apply IH | reflexivity].
Qed.

(** X17. A pattern that reappears shifted keeps travelling: if the
    [p]-th generation of a valid grid is that grid shifted by [a] rows
    and [b] columns on the torus, then for every [k] its [k * p]-th
    generation is the grid shifted by [k * a] rows and [k * b]
    columns.  With [a = b = 0] this is an oscillator of period [p]. *)
Theorem generaciones_nave (p k : nat) (a b : Z) (life : grid) :
  valido life ->
  generaciones p life = OK (desplazar a b life) ->
  generaciones (k * p) life
  = OK (desplazar (Z.of_nat k * a) (Z.of_nat k * b) life).
Proof.
  intros Hval Hp. induction k as [| k IH].
  - cbn [Nat.mul Z.of_nat Z.mul]. now rewrite desplazar_0.
  - cbn [Nat.mul]. rewrite generaciones_suma, Hp, bind_OK.
    rewrite generaciones_desplazar, IH, bind_OK by assumption.
    rewrite desplazar_desplazar by assumption.
    f_equal; f_equal; lia.
Qed.

(** The glider of [main] moves one row down and one column right
    every four generations; on its 8 x 10 torus it is back where it
    started after 160. *)
Lemma generaciones_nave_witness :
  generaciones (40 * 4) tablero_inicial
  = OK (desplazar (Z.of_nat 40 * -1) (Z.of_nat 40 * -1) tablero_inicial).
Proof.
  apply generaciones_nave.
  - exact tablero_inicial_valido.
  - vm_compute. reflexivity.
Defined.

Example planeador_vuelve : desplazar (-40) (-40) tablero_inicial = tablero_inicial.
Proof. vm_compute. reflexivity. Qed.
